(** * Stub collaborators of the probabilistic-micropayment package [pm]

    A shallow embedding of [pm/stub.go]: the in-memory ticket store, the
    signature verifier, the broker (settlement ledger), and the validator
    that the package uses as test doubles, together with the properties
    stated about them.

    Conventions of the embedding
    - a Go [error] is an [option string]: [None] is [nil], [Some msg] the
      error built by [fmt.Errorf msg];
    - a pointer [*T] is an [option T]: [None] is the nil pointer; what a
      pointer points to is not written between the calls considered, so
      that the pointer stands for the value behind it;
    - a slice [[]T] is an [option (list T)]: [None] is the nil slice, which
      Go tells apart from an empty, allocated slice;
    - a Go map is a [gmap]; reading a key that is absent yields the zero
      value of the element type, which is written out in [index];
    - methods with a pointer receiver that write fields take the receiver
      and return the updated receiver next to their results;
    - [sync.RWMutex] only serialises the calls: the embedding is of the
      sequential behaviour of each call. *)

From stdpp Require Import gmap strings list.

Open Scope Z_scope.

(** ** Go values *)

Module Go.

Definition error := option string.

Definition ptr (A : Type) := option A.

Definition slice (A : Type) := option (list A).

(** [*big.Int]: an arbitrary-precision integer behind a pointer. *)
Definition bigInt := ptr Z.

(** The elements of a slice, a nil slice having none. *)
Definition elems {A} (s : slice A) : list A := default [] s.

(** [len(s)] *)
Definition len {A} (s : slice A) : nat := length (elems s).

(** [append(s, x)]: the result is allocated, also when [s] is nil. *)
Definition append {A} (s : slice A) (x : A) : slice A := Some (elems s ++ [x]).

(** [m[k]] as an expression: the zero value [zero] when [k] is absent. *)
Definition index `{Countable K} {V} (zero : V) (m : gmap K V) (k : K) : V :=
  default zero (m !! k).

(** A call either returns or panics (a run-time error such as a nil
    dereference). *)
Inductive outcome (A : Type) :=
| Returns (a : A)
| Panics.
Arguments Returns {A} a.
Arguments Panics {A}.

End Go.
Import Go.

(** [ethcommon.Address] is [[20]byte] and [ethcommon.Hash] is [[32]byte]:
    comparable values, read here as the unsigned integer whose big-endian
    bytes they are. *)
Definition Address := Z.
Definition ethHash := Z.

(** ** Tickets *)

Record CreationContext := {
  reference : Z;
  expiration : Z
}.

(** Modelled from the spec: the [Ticket] struct is declared outside the
    source file. Its fields are the ones the data model lists. [winProb] is
    the numerator of the winning probability over [winRange]. *)
Record Ticket := {
  sender : Address;
  recipient : Address;
  faceValue : Z;
  winProb : Z;
  senderNonce : Z;
  recipientRandHash : ethHash;
  creationContext : CreationContext
}.

(** The fixed integer range in which digests and [winProb] are compared. *)
Definition winRange : Z := 2 ^ 256.

(** The method [Hash] of a ticket pointer is declared outside the source
    file and is taken as a parameter: a function of the ticket behind the
    pointer, which may panic (on a nil receiver, for one). *)
Class TicketHasher := Hash : ptr Ticket -> outcome ethHash.

(** ** stubTicketStore *)

Record stubTicketStore := {
  tickets : gmap string (slice (ptr Ticket));
  sigs : gmap string (slice (slice Byte.byte));
  recipientRands : gmap string (slice bigInt);
  storeShouldFail : bool;
  loadShouldFail : bool
}.

Definition newStubTicketStore : stubTicketStore := {|
  tickets := ∅;
  sigs := ∅;
  recipientRands := ∅;
  storeShouldFail := false;
  loadShouldFail := false
|}.

Definition Store (ts : stubTicketStore) (sessionID : string)
    (ticket : ptr Ticket) (sig : slice Byte.byte) (recipientRand : bigInt)
  : stubTicketStore * error :=
  if storeShouldFail ts then
    (ts, Some "stub ticket store store error"%string)
  else
    ({| tickets :=
          <[sessionID := append (index None (tickets ts) sessionID) ticket]>
            (tickets ts);
        sigs :=
          <[sessionID := append (index None (sigs ts) sessionID) sig]>
            (sigs ts);
        recipientRands :=
          <[sessionID :=
              append (index None (recipientRands ts) sessionID) recipientRand]>
            (recipientRands ts);
        storeShouldFail := storeShouldFail ts;
        loadShouldFail := loadShouldFail ts |},
     None).

Definition Load (ts : stubTicketStore) (sessionID : string)
  : slice (ptr Ticket) * slice (slice Byte.byte) * slice bigInt * error :=
  if loadShouldFail ts then
    (None, None, None, Some "stub ticket store load error"%string)
  else
    (index None (tickets ts) sessionID,
     index None (sigs ts) sessionID,
     index None (recipientRands ts) sessionID,
     None).

(** The two failure flags have no setter: code of the package writes the
    fields. *)
Definition setStoreShouldFail (ts : stubTicketStore) (b : bool) : stubTicketStore :=
  {| tickets := tickets ts; sigs := sigs ts;
     recipientRands := recipientRands ts;
     storeShouldFail := b; loadShouldFail := loadShouldFail ts |}.

Definition setLoadShouldFail (ts : stubTicketStore) (b : bool) : stubTicketStore :=
  {| tickets := tickets ts; sigs := sigs ts;
     recipientRands := recipientRands ts;
     storeShouldFail := storeShouldFail ts; loadShouldFail := b |}.

(** *** Histories of a ticket store

    A client of the store issues calls one after the other; [run] replays
    them from a given store and logs each call with what it returned. *)

Inductive call :=
| CallStore (sessionID : string) (ticket : ptr Ticket)
    (sig : slice Byte.byte) (recipientRand : bigInt)
| CallLoad (sessionID : string)
| SetStoreShouldFail (b : bool)
| SetLoadShouldFail (b : bool).

Inductive reply :=
| StoreReturned (err : error)
| LoadReturned
    (res : slice (ptr Ticket) * slice (slice Byte.byte) * slice bigInt * error)
| FieldWritten.

Definition step (ts : stubTicketStore) (c : call) : stubTicketStore * reply :=
  match c with
  | CallStore sessionID ticket sig recipientRand =>
      let '(ts', err) := Store ts sessionID ticket sig recipientRand in
      (ts', StoreReturned err)
  | CallLoad sessionID => (ts, LoadReturned (Load ts sessionID))
  | SetStoreShouldFail b => (setStoreShouldFail ts b, FieldWritten)
  | SetLoadShouldFail b => (setLoadShouldFail ts b, FieldWritten)
  end.

Fixpoint run (ts : stubTicketStore) (cs : list call)
  : stubTicketStore * list (call * reply) :=
  match cs with
  | [] => (ts, [])
  | c :: cs' =>
      let '(ts1, r) := step ts c in
      let '(ts2, log) := run ts1 cs' in
      (ts2, (c, r) :: log)
  end.

(** What one logged call added to session [sid]: the triple of a [Store]
    call on [sid] that returned a nil error, nothing otherwise. *)
Definition storedBy (sid : string) (e : call * reply)
  : list (ptr Ticket * slice Byte.byte * bigInt) :=
  match e with
  | (CallStore sessionID ticket sig recipientRand, StoreReturned None) =>
      if decide (sessionID = sid) then [(ticket, sig, recipientRand)] else []
  | _ => []
  end.

(** The triples stored under [sid] by the successful [Store] calls of a
    log, oldest first. *)
Definition stored (sid : string) (log : list (call * reply))
  : list (ptr Ticket * slice Byte.byte * bigInt) :=
  flat_map (storedBy sid) log.

(** ** stubSigVerifier *)

Record stubSigVerifier := {
  verifyResult : bool
}.

Definition SetVerifyResult (sv : stubSigVerifier) (verifyResult : bool)
  : stubSigVerifier :=
  {| verifyResult := verifyResult |}.

Definition Verify (sv : stubSigVerifier) (addr : Address)
    (msg sig : slice Byte.byte) : bool :=
  verifyResult sv.

(** ** stubBroker

    The four maps are allocated by [newStubBroker], the constructor of the
    package; the three failure flags are fields written by code of the
    package. *)

Record stubBroker := {
  deposits : gmap Address bigInt;
  penaltyEscrows : gmap Address bigInt;
  usedTickets : gmap ethHash bool;
  approvedSigners : gmap Address bool;
  redeemShouldFail : bool;
  getDepositShouldFail : bool;
  getPenaltyEscrowShouldFail : bool
}.

Definition newStubBroker : stubBroker := {|
  deposits := ∅;
  penaltyEscrows := ∅;
  usedTickets := ∅;
  approvedSigners := ∅;
  redeemShouldFail := false;
  getDepositShouldFail := false;
  getPenaltyEscrowShouldFail := false
|}.

Definition RedeemWinningTicket {hasher : TicketHasher} (b : stubBroker)
    (ticket : ptr Ticket) (sig : slice Byte.byte) (recipientRand : bigInt)
  : outcome (stubBroker * error) :=
  if redeemShouldFail b then
    Returns (b, Some "stub broker redeem error"%string)
  else
    match Hash ticket with
    | Panics => Panics
    | Returns h =>
        Returns
          ({| deposits := deposits b;
              penaltyEscrows := penaltyEscrows b;
              usedTickets := <[h := true]> (usedTickets b);
              approvedSigners := approvedSigners b;
              redeemShouldFail := redeemShouldFail b;
              getDepositShouldFail := getDepositShouldFail b;
              getPenaltyEscrowShouldFail := getPenaltyEscrowShouldFail b |},
           None)
    end.

Definition IsUsedTicket {hasher : TicketHasher} (b : stubBroker) (ticket : ptr Ticket)
  : outcome (bool * error) :=
  match Hash ticket with
  | Panics => Panics
  | Returns h => Returns (index false (usedTickets b) h, None)
  end.

Definition SetDeposit (b : stubBroker) (addr : Address) (amount : bigInt)
  : stubBroker :=
  {| deposits := <[addr := amount]> (deposits b);
     penaltyEscrows := penaltyEscrows b;
     usedTickets := usedTickets b;
     approvedSigners := approvedSigners b;
     redeemShouldFail := redeemShouldFail b;
     getDepositShouldFail := getDepositShouldFail b;
     getPenaltyEscrowShouldFail := getPenaltyEscrowShouldFail b |}.

Definition GetDeposit (b : stubBroker) (addr : Address) : bigInt * error :=
  if getDepositShouldFail b then
    (None, Some "stub broker get deposit error"%string)
  else
    (index None (deposits b) addr, None).

Definition SetPenaltyEscrow (b : stubBroker) (addr : Address) (amount : bigInt)
  : stubBroker :=
  {| deposits := deposits b;
     penaltyEscrows := <[addr := amount]> (penaltyEscrows b);
     usedTickets := usedTickets b;
     approvedSigners := approvedSigners b;
     redeemShouldFail := redeemShouldFail b;
     getDepositShouldFail := getDepositShouldFail b;
     getPenaltyEscrowShouldFail := getPenaltyEscrowShouldFail b |}.

Definition GetPenaltyEscrow (b : stubBroker) (addr : Address) : bigInt * error :=
  if getPenaltyEscrowShouldFail b then
    (None, Some "stub broker get penalty escrow error"%string)
  else
    (index None (penaltyEscrows b) addr, None).

(** ** stubValidator *)

Record stubValidator := {
  isValidTicket : bool;
  isWinningTicket : bool
}.

Definition SetIsValidTicket (v : stubValidator) (isValidTicket : bool)
  : stubValidator :=
  {| isValidTicket := isValidTicket; isWinningTicket := isWinningTicket v |}.

Definition SetIsWinningTicket (v : stubValidator) (isWinningTicket : bool)
  : stubValidator :=
  {| isValidTicket := isValidTicket v; isWinningTicket := isWinningTicket |}.

Definition ValidateTicket (v : stubValidator) (ticket : ptr Ticket)
    (sig : slice Byte.byte) (recipientRand : bigInt) : error :=
  if negb (isValidTicket v) then
    Some "stub validator invalid ticket error"%string
  else
    None.

Definition IsWinningTicket (v : stubValidator) (ticket : ptr Ticket)
    (sig : slice Byte.byte) (recipientRand : bigInt) : bool :=
  isWinningTicket v.

(** ** Sample values

    A ticket hasher to evaluate the broker on: it panics on the nil pointer
    and tells tickets apart by sender and nonce. *)

Definition sampleHasher : TicketHasher := fun ticket =>
  match ticket with
  | None => Panics
  | Some t => Returns (sender t * 2 ^ 64 + senderNonce t)
  end.

Definition sampleTicket (nonce : Z) (commitment : ethHash) (prob : Z) : Ticket := {|
  sender := 10;
  recipient := 20;
  faceValue := 100;
  winProb := prob;
  senderNonce := nonce;
  recipientRandHash := commitment;
  creationContext := {| reference := 7; expiration := 8 |}
|}.

(** The components of a list of stored triples. *)
Definition ticketsOf (l : list (ptr Ticket * slice Byte.byte * bigInt))
  : list (ptr Ticket) := map (fun e => e.1.1) l.

Definition sigsOf (l : list (ptr Ticket * slice Byte.byte * bigInt))
  : list (slice Byte.byte) := map (fun e => e.1.2) l.

Definition randsOf (l : list (ptr Ticket * slice Byte.byte * bigInt))
  : list bigInt := map (fun e => e.2) l.

(** The slice that results from appending the elements of [l] to [s], one
    [append] each, as [Store] does. *)
Definition appendAll {A} (s : slice A) (l : list A) : slice A :=
  foldl append s l.

(** [grownBy ts ts' sid l]: session [sid] of [ts'] is session [sid] of [ts]
    with the triples [l] appended, in the three maps alike. *)
Definition grownBy (ts ts' : stubTicketStore) (sid : string)
    (l : list (ptr Ticket * slice Byte.byte * bigInt)) : Prop :=
  index None (tickets ts') sid
    = appendAll (index None (tickets ts) sid) (ticketsOf l)
  /\ index None (sigs ts') sid
    = appendAll (index None (sigs ts) sid) (sigsOf l)
  /\ index None (recipientRands ts') sid
    = appendAll (index None (recipientRands ts) sid) (randsOf l).

(** The calls of the sample history: two sessions interleaved, and a
    [Store] on the first that fails in between. *)
Definition sampleCalls : list call :=
  [ CallStore "a" (Some (sampleTicket 1 0 0)) (Some [Byte.x01]) (Some 11);
    CallStore "b" (Some (sampleTicket 2 0 0)) (Some [Byte.x02]) (Some 22);
    SetStoreShouldFail true;
    CallStore "a" (Some (sampleTicket 3 0 0)) (Some [Byte.x03]) (Some 33);
    SetStoreShouldFail false;
    CallStore "a" None None None ].

(** ** stubBroker: the other methods

    The methods that fund, unlock and withdraw return a nil error and
    write no field. [ApproveSigners] is the one method that writes
    [approvedSigners]. *)

Definition FundAndApproveSigners (b : stubBroker)
    (depositAmount penaltyEscrowAmount : bigInt) (signers : slice Address)
  : stubBroker * error :=
  (b, None).

Definition FundDeposit (b : stubBroker) (amount : bigInt) : stubBroker * error :=
  (b, None).

Definition FundPenaltyEscrow (b : stubBroker) (amount : bigInt)
  : stubBroker * error :=
  (b, None).

(** The body of the loop of [ApproveSigners]:
    [b.approvedSigners[signer] = true]. *)
Definition approve (b : stubBroker) (signer : Address) : stubBroker :=
  {| deposits := deposits b;
     penaltyEscrows := penaltyEscrows b;
     usedTickets := usedTickets b;
     approvedSigners := <[signer := true]> (approvedSigners b);
     redeemShouldFail := redeemShouldFail b;
     getDepositShouldFail := getDepositShouldFail b;
     getPenaltyEscrowShouldFail := getPenaltyEscrowShouldFail b |}.

(** The loop runs over the indices [0 .. len(signers) - 1] in order, that
    is over the elements of the slice from the first to the last. *)
Definition ApproveSigners (b : stubBroker) (signers : slice Address)
  : stubBroker * error :=
  (foldl approve b (elems signers), None).

Definition RequestSignersRevocation (b : stubBroker) (signers : slice Address)
  : stubBroker * error :=
  (b, None).

Definition Unlock (b : stubBroker) : stubBroker * error := (b, None).

Definition CancelUnlock (b : stubBroker) : stubBroker * error := (b, None).

Definition Withdraw (b : stubBroker) : stubBroker * error := (b, None).

Definition IsApprovedSigner (b : stubBroker) (sender signer : Address)
  : bool * error :=
  (index false (approvedSigners b) signer, None).

(** The failure flags of the broker have no setter either. *)
Definition setRedeemShouldFail (b : stubBroker) (flag : bool) : stubBroker :=
  {| deposits := deposits b;
     penaltyEscrows := penaltyEscrows b;
     usedTickets := usedTickets b;
     approvedSigners := approvedSigners b;
     redeemShouldFail := flag;
     getDepositShouldFail := getDepositShouldFail b;
     getPenaltyEscrowShouldFail := getPenaltyEscrowShouldFail b |}.

Definition setGetDepositShouldFail (b : stubBroker) (flag : bool) : stubBroker :=
  {| deposits := deposits b;
     penaltyEscrows := penaltyEscrows b;
     usedTickets := usedTickets b;
     approvedSigners := approvedSigners b;
     redeemShouldFail := redeemShouldFail b;
     getDepositShouldFail := flag;
     getPenaltyEscrowShouldFail := getPenaltyEscrowShouldFail b |}.

Definition setGetPenaltyEscrowShouldFail (b : stubBroker) (flag : bool)
  : stubBroker :=
  {| deposits := deposits b;
     penaltyEscrows := penaltyEscrows b;
     usedTickets := usedTickets b;
     approvedSigners := approvedSigners b;
     redeemShouldFail := redeemShouldFail b;
     getDepositShouldFail := getDepositShouldFail b;
     getPenaltyEscrowShouldFail := flag |}.

(** *** Histories of a broker

    The calls that may write the broker, replayed in order and logged with
    the error each returned. The four queries ([IsUsedTicket],
    [IsApprovedSigner], [GetDeposit], [GetPenaltyEscrow]) write no field
    and are asked of the broker a history ends in. A history stops at the
    first call that panics. *)

Inductive brokerCall :=
| CallFundAndApproveSigners (depositAmount penaltyEscrowAmount : bigInt)
    (signers : slice Address)
| CallFundDeposit (amount : bigInt)
| CallFundPenaltyEscrow (amount : bigInt)
| CallApproveSigners (signers : slice Address)
| CallRequestSignersRevocation (signers : slice Address)
| CallUnlock
| CallCancelUnlock
| CallWithdraw
| CallRedeemWinningTicket (ticket : ptr Ticket) (sig : slice Byte.byte)
    (recipientRand : bigInt)
| CallSetDeposit (addr : Address) (amount : bigInt)
| CallSetPenaltyEscrow (addr : Address) (amount : bigInt)
| SetRedeemShouldFail (flag : bool)
| SetGetDepositShouldFail (flag : bool)
| SetGetPenaltyEscrowShouldFail (flag : bool).

Definition brokerStep {hasher : TicketHasher} (b : stubBroker) (c : brokerCall)
  : outcome (stubBroker * error) :=
  match c with
  | CallFundAndApproveSigners depositAmount penaltyEscrowAmount signers =>
      Returns (FundAndApproveSigners b depositAmount penaltyEscrowAmount signers)
  | CallFundDeposit amount => Returns (FundDeposit b amount)
  | CallFundPenaltyEscrow amount => Returns (FundPenaltyEscrow b amount)
  | CallApproveSigners signers => Returns (ApproveSigners b signers)
  | CallRequestSignersRevocation signers =>
      Returns (RequestSignersRevocation b signers)
  | CallUnlock => Returns (Unlock b)
  | CallCancelUnlock => Returns (CancelUnlock b)
  | CallWithdraw => Returns (Withdraw b)
  | CallRedeemWinningTicket ticket sig recipientRand =>
      RedeemWinningTicket b ticket sig recipientRand
  | CallSetDeposit addr amount => Returns (SetDeposit b addr amount, None)
  | CallSetPenaltyEscrow addr amount =>
      Returns (SetPenaltyEscrow b addr amount, None)
  | SetRedeemShouldFail flag => Returns (setRedeemShouldFail b flag, None)
  | SetGetDepositShouldFail flag =>
      Returns (setGetDepositShouldFail b flag, None)
  | SetGetPenaltyEscrowShouldFail flag =>
      Returns (setGetPenaltyEscrowShouldFail b flag, None)
  end.

Fixpoint brokerRun {hasher : TicketHasher} (b : stubBroker)
    (cs : list brokerCall) : outcome (stubBroker * list (brokerCall * error)) :=
  match cs with
  | [] => Returns (b, [])
  | c :: cs' =>
      match brokerStep b c with
      | Panics => Panics
      | Returns (b1, err) =>
          match brokerRun b1 cs' with
          | Panics => Panics
          | Returns (b2, log) => Returns (b2, (c, err) :: log)
          end
      end
  end.

(** The amount that the calls [cs] leave at [addr] when it held [before]:
    the amount of the last [SetDeposit] on [addr], if there is one. *)
Definition depositAfter (addr : Address) (cs : list brokerCall)
    (before : bigInt) : bigInt :=
  foldl (fun cur c =>
           match c with
           | CallSetDeposit a amount => if decide (a = addr) then amount else cur
           | _ => cur
           end) before cs.

Definition penaltyEscrowAfter (addr : Address) (cs : list brokerCall)
    (before : bigInt) : bigInt :=
  foldl (fun cur c =>
           match c with
           | CallSetPenaltyEscrow a amount =>
               if decide (a = addr) then amount else cur
           | _ => cur
           end) before cs.

(** A logged call redeemed a ticket of hash [h]: a [RedeemWinningTicket]
    that returned a nil error, on a ticket that hashes to [h]. *)
Definition redeemed {hasher : TicketHasher} (h : ethHash)
    (e : brokerCall * error) : Prop :=
  exists ticket sig recipientRand,
    e = (CallRedeemWinningTicket ticket sig recipientRand, None)
    /\ Hash ticket = Returns h.

(** A logged call approved [signer]: an [ApproveSigners] whose slice holds
    [signer]. *)
Definition approved (signer : Address) (e : brokerCall * error) : Prop :=
  exists signers, e = (CallApproveSigners signers, None)
                  /\ signer ∈ elems signers.

Definition sampleBrokerCalls : list brokerCall :=
  [ CallSetDeposit 10 (Some 1000);
    CallFundAndApproveSigners (Some 500) (Some 50) (Some [30; 31]);
    CallApproveSigners (Some [31; 32; 31]);
    CallRedeemWinningTicket (Some (sampleTicket 1 0 0)) None None;
    SetRedeemShouldFail true;
    CallRedeemWinningTicket (Some (sampleTicket 2 0 0)) None None;
    CallRequestSignersRevocation (Some [32]);
    CallSetDeposit 11 None;
    CallWithdraw ].

(** The triple that a session holds at index [i]. *)
Definition tripleAt (ts : stubTicketStore) (sid : string) (i : nat)
  : option (ptr Ticket) * option (slice Byte.byte) * option bigInt :=
  (elems (index None (tickets ts) sid) !! i,
   elems (index None (sigs ts) sid) !! i,
   elems (index None (recipientRands ts) sid) !! i).

(** *** Histories of a validator

    The two setters, called in any order. *)

Inductive validatorCall :=
| CallSetIsValidTicket (isValidTicket : bool)
| CallSetIsWinningTicket (isWinningTicket : bool).

Definition validatorStep (v : stubValidator) (c : validatorCall)
  : stubValidator :=
  match c with
  | CallSetIsValidTicket isValidTicket => SetIsValidTicket v isValidTicket
  | CallSetIsWinningTicket isWinningTicket =>
      SetIsWinningTicket v isWinningTicket
  end.

Definition validatorRun (v : stubValidator) (cs : list validatorCall)
  : stubValidator :=
  foldl validatorStep v cs.

(** The arguments of the [SetIsValidTicket] calls of a history, and of its
    [SetIsWinningTicket] calls, oldest first. *)
Definition validSettings (cs : list validatorCall) : list bool :=
  omap (fun c => match c with
                 | CallSetIsValidTicket x => Some x
                 | CallSetIsWinningTicket _ => None
                 end) cs.

Definition winningSettings (cs : list validatorCall) : list bool :=
  omap (fun c => match c with
                 | CallSetIsValidTicket _ => None
                 | CallSetIsWinningTicket w => Some w
                 end) cs.

(** ** stubAccountManager

    [accounts.Account] belongs to a library; the stub only stores and
    returns it, and the record is given for any type of accounts.
    [CreateTransactOpts] and [SignTx], which return two nil values of
    library types, are left out. *)

Module AccountManager.

Record stubAccountManager (Account : Type) := {
  account : Account;
  saveSignRequest : bool;
  lastSignRequest : slice Byte.byte;
  signResponse : slice Byte.byte;
  signShouldFail : bool
}.
Arguments account {Account} _.
Arguments saveSignRequest {Account} _.
Arguments lastSignRequest {Account} _.
Arguments signResponse {Account} _.
Arguments signShouldFail {Account} _.

Definition Unlock {Account} (am : stubAccountManager Account)
    (passphrase : string) : stubAccountManager Account * error :=
  (am, None).

Definition Lock {Account} (am : stubAccountManager Account)
  : stubAccountManager Account * error :=
  (am, None).

Definition Sign {Account} (am : stubAccountManager Account)
    (msg : slice Byte.byte)
  : stubAccountManager Account * (slice Byte.byte * error) :=
  let am1 :=
    if saveSignRequest am then
      {| account := account am;
         saveSignRequest := saveSignRequest am;
         lastSignRequest := msg;
         signResponse := signResponse am;
         signShouldFail := signShouldFail am |}
    else am in
  if signShouldFail am1 then
    (am1, (None, Some "stub returning error as requested"%string))
  else
    (am1, (signResponse am1, None)).

Definition Account {Account} (am : stubAccountManager Account) : Account :=
  account am.

(** [Sign] on each message of [msgs] in turn, with the results in order. *)
Fixpoint signAll {Account} (am : stubAccountManager Account)
    (msgs : list (slice Byte.byte))
  : stubAccountManager Account * list (slice Byte.byte * error) :=
  match msgs with
  | [] => (am, [])
  | msg :: msgs' =>
      let '(am1, res) := Sign am msg in
      let '(am2, ress) := signAll am1 msgs' in
      (am2, res :: ress)
  end.

(** What every [Sign] of [am] returns. *)
Definition signResult {Account} (am : stubAccountManager Account)
  : slice Byte.byte * error :=
  if signShouldFail am then
    (None, Some "stub returning error as requested"%string)
  else (signResponse am, None).

End AccountManager.

(** * Properties *)

(** ** Slices and maps *)

Section slices.
Context {A : Type}.
Implicit Types (s : slice A) (l : list A).

Lemma elems_append s x : elems (append s x) = elems s ++ [x].
Proof. reflexivity. Qed.

Lemma elems_appendAll l : forall s, elems (appendAll s l) = elems s ++ l.
Proof.
  induction l as [|x l IH]; intros s; simpl.
  - by rewrite app_nil_r.
  - change (appendAll s (x :: l)) with (appendAll (append s x) l).
    rewrite IH, elems_append, <- app_assoc. reflexivity.
Qed.

Lemma len_appendAll s l : len (appendAll s l) = (len s + length l)%nat.
Proof. unfold len. by rewrite elems_appendAll, length_app. Qed.

End slices.

Section maps.
Context `{Countable K} {V : Type}.
Implicit Types (m : gmap K V) (k : K) (v zero : V).

Lemma index_empty zero k : index zero (∅ : gmap K V) k = zero.
Proof. unfold index. by rewrite lookup_empty. Qed.

Lemma index_insert_eq zero m k v : index zero (<[k := v]> m) k = v.
Proof. unfold index. by rewrite lookup_insert_eq. Qed.

Lemma index_insert_ne zero m k k' v :
  k ≠ k' -> index zero (<[k := v]> m) k' = index zero m k'.
Proof. intros Hne. unfold index. by rewrite lookup_insert_ne. Qed.
End maps.

Create Rewrite HintDb gomap.
#[global] Hint Rewrite @index_empty @index_insert_eq : gomap.
#[global] Hint Rewrite @index_insert_ne using congruence : gomap.

(** ** The ticket store *)

Lemma grownBy_refl ts sid : grownBy ts ts sid [].
Proof. by repeat split. Qed.

Lemma grownBy_trans ts ts1 ts2 sid l1 l2 :
  grownBy ts ts1 sid l1 -> grownBy ts1 ts2 sid l2 ->
  grownBy ts ts2 sid (l1 ++ l2).
Proof.
  unfold grownBy, ticketsOf, sigsOf, randsOf, appendAll.
  intros (Ht1 & Hs1 & Hr1) (Ht2 & Hs2 & Hr2).
  rewrite !map_app, !foldl_app, <- Ht1, <- Hs1, <- Hr1. done.
Qed.

Lemma Store_fails ts sessionID ticket sig recipientRand :
  storeShouldFail ts = true ->
  Store ts sessionID ticket sig recipientRand
    = (ts, Some "stub ticket store store error"%string).
Proof. intros Hfail. unfold Store. by rewrite Hfail. Qed.

Lemma Store_error_iff ts sessionID ticket sig recipientRand :
  (Store ts sessionID ticket sig recipientRand).2 ≠ None
  <-> storeShouldFail ts = true.
Proof. unfold Store. destruct (storeShouldFail ts); simpl; split; done. Qed.

(** One call grows every session by what the call stored there. *)
Lemma step_grownBy ts c ts1 r sid :
  step ts c = (ts1, r) -> grownBy ts ts1 sid (storedBy sid (c, r)).
Proof.
  destruct c as [sessionID ticket sig recipientRand | sessionID | b | b];
    simpl; [ | intros [= <- <-]; by repeat split .. ].
  unfold Store. destruct (storeShouldFail ts); intros [= <- <-]; simpl.
  - apply grownBy_refl.
  - destruct (decide (sessionID = sid)) as [-> | Hne];
      unfold grownBy; simpl; autorewrite with gomap; done.
Qed.

Lemma run_grownBy cs : forall ts ts' log sid,
  run ts cs = (ts', log) -> grownBy ts ts' sid (stored sid log).
Proof.
  induction cs as [|c cs IH]; intros ts ts' log sid; simpl.
  - intros [= <- <-]. apply grownBy_refl.
  - destruct (step ts c) as [ts1 r] eqn:Hstep.
    destruct (run ts1 cs) as [ts2 log'] eqn:Hrun.
    intros [= <- <-]. unfold stored. simpl.
    eapply grownBy_trans; [by apply step_grownBy | by apply IH].
Qed.

(** From the store that [newStubTicketStore] builds, a session holds the
    triples of its successful [Store] calls, appended to the nil slice. *)
Lemma run_new_stored cs ts' log sid :
  run newStubTicketStore cs = (ts', log) ->
  index None (tickets ts') sid = appendAll None (ticketsOf (stored sid log))
  /\ index None (sigs ts') sid = appendAll None (sigsOf (stored sid log))
  /\ index None (recipientRands ts') sid
     = appendAll None (randsOf (stored sid log)).
Proof.
  intros Hrun. apply (run_grownBy _ _ _ _ sid) in Hrun.
  destruct Hrun as (Ht & Hs & Hr). simpl in Ht, Hs, Hr.
  autorewrite with gomap in Ht, Hs, Hr. done.
Qed.

(** No successful [Store] call on [sid] occurs in a log exactly when the
    log stored nothing under [sid]. *)
Lemma stored_nil_iff sid log :
  stored sid log = []
  <-> forall ticket sig recipientRand,
        (CallStore sid ticket sig recipientRand, StoreReturned None) ∉ log.
Proof.
  unfold stored. induction log as [|e log IH]; simpl.
  - split; [ intros _ ? ? ? Hin; by apply not_elem_of_nil in Hin | done ].
  - split.
    + intros Happ. apply app_eq_nil in Happ as [He Hlog].
      intros ticket sig recipientRand [<- | Hin]%elem_of_cons.
      * simpl in He. by rewrite decide_True in He.
      * by eapply IH.
    + intros Hnone. apply app_nil; split.
      * destruct e as [[sessionID ticket sig recipientRand | | | ] [[msg|] | |]];
          simpl; try done.
        destruct (decide (sessionID = sid)) as [-> | Hne]; [|done].
        exfalso. eapply Hnone. left.
      * apply IH. intros ticket sig recipientRand Hin.
        eapply Hnone. right. exact Hin.
Qed.

(** C4. Round trip of the ticket store. Replay any sequence of calls
    ([Store] and [Load] on any sessions, writes of the failure flags) from
    the store built by [newStubTicketStore]. A [Load] of session [sid] that
    then returns a nil error returns exactly the tickets, signatures and
    recipientRands of the [Store] calls on [sid] that returned a nil error,
    in the order of those calls: nothing is lost, duplicated or reordered,
    and what was stored under another session does not appear. *)
Theorem Load_returns_stored cs ts' log sid tks sgs rrs :
  run newStubTicketStore cs = (ts', log) ->
  Load ts' sid = (tks, sgs, rrs, None) ->
  elems tks = ticketsOf (stored sid log)
  /\ elems sgs = sigsOf (stored sid log)
  /\ elems rrs = randsOf (stored sid log).
Proof.
  intros Hrun HLoad.
  destruct (run_new_stored _ _ _ sid Hrun) as (Ht & Hs & Hr).
  unfold Load in HLoad. destruct (loadShouldFail ts'); [done|].
  injection HLoad as <- <- <-.
  rewrite Ht, Hs, Hr, !elems_appendAll. done.
Qed.

Lemma Load_returns_stored_witness :
  let ts' := (run newStubTicketStore sampleCalls).1 in
  elems (Load ts' "a").1.1.1 = [Some (sampleTicket 1 0 0); None]
  /\ elems (Load ts' "a").1.1.2 = [Some [Byte.x01]; None]
  /\ elems (Load ts' "a").1.2 = [Some 11; None].
Proof.
  exact (Load_returns_stored sampleCalls
           (run newStubTicketStore sampleCalls).1
           (run newStubTicketStore sampleCalls).2 "a" _ _ _
           eq_refl eq_refl).
Defined.

(** C5. [Store] returns a non-nil error exactly when [storeShouldFail] is
    set, and a [Store] that returns an error writes nothing: the store is
    the one before the call, so that [Load] returns for every session what
    it returned before. *)
Theorem Store_error_atomic ts sessionID ticket sig recipientRand :
  let res := Store ts sessionID ticket sig recipientRand in
  (res.2 ≠ None <-> storeShouldFail ts = true)
  /\ (res.2 ≠ None ->
      res.1 = ts /\ forall sid, Load res.1 sid = Load ts sid).
Proof.
  simpl. split; [apply Store_error_iff|].
  intros Hfail%Store_error_iff. by rewrite Store_fails.
Qed.

(** C8. After any sequence of [Store] and [Load] calls, failing or not,
    replayed from the store built by [newStubTicketStore], the ticket
    list, the signature list and the recipientRand list of every session
    have the same length. *)
Theorem store_lists_same_length cs sid :
  let ts' := (run newStubTicketStore cs).1 in
  len (index None (tickets ts') sid) = len (index None (sigs ts') sid)
  /\ len (index None (sigs ts') sid)
     = len (index None (recipientRands ts') sid).
Proof.
  destruct (run newStubTicketStore cs) as [ts' log] eqn:Hrun. simpl.
  destruct (run_new_stored _ _ _ sid Hrun) as (-> & -> & ->).
  rewrite !len_appendAll. unfold ticketsOf, sigsOf, randsOf.
  rewrite !length_map. done.
Qed.

(** C10. A session on which no [Store] call has returned a nil error is
    unknown to the store, and loading it is not an error: with
    [loadShouldFail] unset, [Load] returns three nil slices and a nil
    error. *)
Theorem Load_unknown_session cs ts' log sid :
  run newStubTicketStore cs = (ts', log) ->
  (forall ticket sig recipientRand,
     (CallStore sid ticket sig recipientRand, StoreReturned None) ∉ log) ->
  loadShouldFail ts' = false ->
  Load ts' sid = (None, None, None, None).
Proof.
  intros Hrun Hnone%stored_nil_iff Hload.
  destruct (run_new_stored _ _ _ sid Hrun) as (Ht & Hs & Hr).
  unfold Load. rewrite Hload, Ht, Hs, Hr, Hnone. reflexivity.
Qed.

Lemma Load_unknown_session_witness :
  Load (run newStubTicketStore sampleCalls).1 "c" = (None, None, None, None).
Proof.
  apply (Load_unknown_session sampleCalls
           (run newStubTicketStore sampleCalls).1
           (run newStubTicketStore sampleCalls).2 "c").
  - reflexivity.
  - apply stored_nil_iff. reflexivity.
  - reflexivity.
Defined.

(** ** The broker *)

Section broker.
Context `{hasher : TicketHasher}.
Implicit Types (b : stubBroker) (ticket : ptr Ticket).

Lemma Redeem_fails b ticket sig recipientRand :
  redeemShouldFail b = true ->
  RedeemWinningTicket b ticket sig recipientRand
    = Returns (b, Some "stub broker redeem error"%string).
Proof. intros Hfail. unfold RedeemWinningTicket. by rewrite Hfail. Qed.

(** A redemption that returns does so in one of two ways. *)
Lemma Redeem_returns_inv b b' ticket sig recipientRand err :
  RedeemWinningTicket b ticket sig recipientRand = Returns (b', err) ->
  (redeemShouldFail b = true /\ b' = b /\ err ≠ None)
  \/ (redeemShouldFail b = false /\ err = None
      /\ exists h, Hash ticket = Returns h
                   /\ usedTickets b' = <[h := true]> (usedTickets b)).
Proof.
  unfold RedeemWinningTicket.
  destruct (redeemShouldFail b); [intros [= <- <-]; by left|].
  destruct (Hash ticket) as [h|] eqn:Hh; [|done].
  intros [= <- <-]. right. eauto.
Qed.

(** X6. The stub does not look at the used tickets before it redeems: a
    ticket that was redeemed is redeemed again with a nil error, and the
    second redemption leaves the broker as it is. *)
Lemma Redeem_twice b b1 ticket sig recipientRand :
  RedeemWinningTicket b ticket sig recipientRand = Returns (b1, None) ->
  RedeemWinningTicket b1 ticket sig recipientRand = Returns (b1, None).
Proof.
  unfold RedeemWinningTicket.
  destruct (redeemShouldFail b) eqn:Hfail; [done|].
  destruct (Hash ticket) as [h|] eqn:Hh; [|done].
  intros [= <-]. simpl. by rewrite insert_insert_eq.
Qed.

(** C3. After a call of [RedeemWinningTicket] on a ticket that returned a
    nil error, [IsUsedTicket] on that ticket returns [(true, nil)]. *)
Theorem IsUsedTicket_after_Redeem b b' ticket sig recipientRand :
  RedeemWinningTicket b ticket sig recipientRand = Returns (b', None) ->
  IsUsedTicket b' ticket = Returns (true, None).
Proof.
  intros [(_ & _ & Herr) | (_ & _ & h & Hh & Hused)]%Redeem_returns_inv;
    [done|].
  unfold IsUsedTicket. rewrite Hh, Hused. by autorewrite with gomap.
Qed.

(** C6. When [RedeemWinningTicket] returns a non-nil error the used
    tickets of the broker are the ones before the call: [IsUsedTicket]
    returns for every ticket, the submitted one too, what it returned
    before. *)
Theorem Redeem_error_atomic b b' ticket sig recipientRand err :
  RedeemWinningTicket b ticket sig recipientRand = Returns (b', err) ->
  err ≠ None ->
  usedTickets b' = usedTickets b
  /\ forall t, IsUsedTicket b' t = IsUsedTicket b t.
Proof.
  intros [(_ & -> & _) | (_ & -> & _)]%Redeem_returns_inv Herr; done.
Qed.
End broker.

Lemma IsUsedTicket_after_Redeem_witness :
  IsUsedTicket (hasher := sampleHasher)
    {| deposits := ∅; penaltyEscrows := ∅;
       usedTickets := {[ 10 * 2 ^ 64 + 1 := true ]}; approvedSigners := ∅;
       redeemShouldFail := false; getDepositShouldFail := false;
       getPenaltyEscrowShouldFail := false |}
    (Some (sampleTicket 1 0 0))
  = Returns (true, None).
Proof.
  apply (IsUsedTicket_after_Redeem (hasher := sampleHasher)
           newStubBroker _ (Some (sampleTicket 1 0 0)) None None).
  reflexivity.
Defined.

Lemma Redeem_error_atomic_witness :
  let b := {| deposits := ∅; penaltyEscrows := ∅;
              usedTickets := {[ 10 * 2 ^ 64 + 1 := true ]};
              approvedSigners := ∅;
              redeemShouldFail := true; getDepositShouldFail := false;
              getPenaltyEscrowShouldFail := false |} in
  usedTickets b = usedTickets b
  /\ forall t, IsUsedTicket (hasher := sampleHasher) b t
               = IsUsedTicket (hasher := sampleHasher) b t.
Proof.
  intros b.
  apply (Redeem_error_atomic (hasher := sampleHasher)
           b b (Some (sampleTicket 2 0 0)) None None
           (Some "stub broker redeem error"%string)).
  - reflexivity.
  - discriminate.
Defined.

(** C7. Round trip of the balances. [SetDeposit] writes the amount at the
    address whatever the failure flags are, and keeps the flags: a
    [GetDeposit] on the address just set returns the amount set and a nil
    error when [getDepositShouldFail] is unset, and a nil amount and a
    non-nil error when it is set, also when the flag is written between the
    two calls; likewise for the penalty escrow. Setting the balance of one
    address leaves the balance of every other address, and the other kind
    of balance of every address, as they were: a [Get] with the flag unset
    returns for them what it returned before, and with the flag set its
    error. *)
Theorem balances_round_trip (b : stubBroker) (addr : Address) (amount : bigInt) :
  (getDepositShouldFail (SetDeposit b addr amount) = getDepositShouldFail b
   /\ getPenaltyEscrowShouldFail (SetPenaltyEscrow b addr amount)
      = getPenaltyEscrowShouldFail b)
  /\ GetDeposit (SetDeposit b addr amount) addr
    = (if getDepositShouldFail b
       then (None, Some "stub broker get deposit error"%string)
       else (amount, None))
  /\ GetPenaltyEscrow (SetPenaltyEscrow b addr amount) addr
    = (if getPenaltyEscrowShouldFail b
       then (None, Some "stub broker get penalty escrow error"%string)
       else (amount, None))
  /\ (forall flag,
        GetDeposit (setGetDepositShouldFail (SetDeposit b addr amount) flag)
          addr
        = (if flag
           then (None, Some "stub broker get deposit error"%string)
           else (amount, None))
        /\ GetPenaltyEscrow
             (setGetPenaltyEscrowShouldFail (SetPenaltyEscrow b addr amount)
                flag) addr
           = (if flag
              then (None, Some "stub broker get penalty escrow error"%string)
              else (amount, None)))
  /\ (forall flag addr', addr' ≠ addr ->
        GetDeposit (setGetDepositShouldFail (SetDeposit b addr amount) flag)
          addr'
        = GetDeposit (setGetDepositShouldFail b flag) addr'
        /\ GetPenaltyEscrow
             (setGetPenaltyEscrowShouldFail (SetPenaltyEscrow b addr amount)
                flag) addr'
           = GetPenaltyEscrow (setGetPenaltyEscrowShouldFail b flag) addr')
  /\ (forall flag addr',
        GetPenaltyEscrow
          (setGetPenaltyEscrowShouldFail (SetDeposit b addr amount) flag) addr'
        = GetPenaltyEscrow (setGetPenaltyEscrowShouldFail b flag) addr'
        /\ GetDeposit
             (setGetDepositShouldFail (SetPenaltyEscrow b addr amount) flag)
             addr'
           = GetDeposit (setGetDepositShouldFail b flag) addr').
Proof.
  unfold GetDeposit, GetPenaltyEscrow. simpl.
  repeat split; try intros flag; try intros addr' Hne; try intros addr';
    try destruct flag;
    try destruct (getDepositShouldFail b);
    try destruct (getPenaltyEscrowShouldFail b);
    autorewrite with gomap; done.
Qed.

(** ** The signature verifier *)

Lemma Verify_after_Set sv verifyResult addr msg sig :
  Verify (SetVerifyResult sv verifyResult) addr msg sig = verifyResult.
Proof. reflexivity. Qed.

(** C9. The result of [Verify] depends on the configured result alone: two
    verifiers configured with the same result answer alike on any two
    triples of address, message and signature, and the answer is the
    configured result. *)
Theorem Verify_ignores_inputs sv1 sv2 addr1 msg1 sig1 addr2 msg2 sig2 :
  verifyResult sv1 = verifyResult sv2 ->
  Verify sv1 addr1 msg1 sig1 = Verify sv2 addr2 msg2 sig2
  /\ Verify sv1 addr1 msg1 sig1 = verifyResult sv1.
Proof. intros Hcfg. unfold Verify. by rewrite Hcfg. Qed.

Lemma Verify_ignores_inputs_witness :
  Verify (SetVerifyResult {| verifyResult := false |} true)
    10 (Some [Byte.x01]) None
  = Verify {| verifyResult := true |} 20 None (Some [Byte.xff; Byte.x00])
  /\ Verify (SetVerifyResult {| verifyResult := false |} true)
       10 (Some [Byte.x01]) None
     = verifyResult (SetVerifyResult {| verifyResult := false |} true).
Proof.
  apply (Verify_ignores_inputs
           (SetVerifyResult {| verifyResult := false |} true)
           {| verifyResult := true |}).
  reflexivity.
Defined.

(** ** The validator *)

(** C1, as the code has it. [ValidateTicket] returns a non-nil error
    exactly when the flag [isValidTicket] of the validator is unset,
    whatever the ticket, the signature and the recipientRand are: a ticket
    is rejected when the flag is unset, whether or not its recipientRand
    hashes to its recipientRandHash and whether or not it would win, and
    accepted when the flag is set. *)
Theorem ValidateTicket_error_iff v ticket sig recipientRand :
  ValidateTicket v ticket sig recipientRand ≠ None
  <-> isValidTicket v = false.
Proof.
  unfold ValidateTicket. destruct (isValidTicket v); simpl; split; done.
Qed.

(** C1 does not hold as stated. Two tickets that differ in their
    recipientRandHash alone are presented with the same recipientRand [5]:
    whatever the hash function is, [5] fails to hash to the commitment of
    one of them at least, and a validator whose flag is set accepts
    both. *)
Lemma ValidateTicket_accepts_bad_commitment :
  let v := SetIsValidTicket {| isValidTicket := false; isWinningTicket := false |} true in
  (forall hashRand : Z -> ethHash,
     hashRand 5 ≠ recipientRandHash (sampleTicket 1 0 0)
     \/ hashRand 5 ≠ recipientRandHash (sampleTicket 1 1 0))
  /\ ValidateTicket v (Some (sampleTicket 1 0 0)) None (Some 5) = None
  /\ ValidateTicket v (Some (sampleTicket 1 1 0)) None (Some 5) = None.
Proof.
  simpl. repeat split.
  intros hashRand. destruct (decide (hashRand 5 = 0)) as [-> | Hne];
    [right; done | left; done].
Qed.

(** C2, as the code has it. [IsWinningTicket] returns the flag
    [isWinningTicket] of the validator, whatever the ticket, the signature
    and the recipientRand are: it returns false exactly when the flag is
    unset, whether the digest is below the scaled [winProb] or not. *)
Theorem IsWinningTicket_false_iff v ticket sig recipientRand :
  IsWinningTicket v ticket sig recipientRand = false
  <-> isWinningTicket v = false.
Proof. reflexivity. Qed.

(** C2 does not hold as stated. The sample ticket has [winProb] zero, so
    that every digest, read as an unsigned integer of the range, is at
    least the scaled [winProb]; a validator whose flag is set reports the
    ticket as a winner all the same. *)
Lemma IsWinningTicket_wins_above_threshold :
  let v := SetIsWinningTicket {| isValidTicket := true; isWinningTicket := false |} true in
  (forall digest : Z, winProb (sampleTicket 1 0 0) <= digest mod winRange)
  /\ IsWinningTicket v (Some (sampleTicket 1 0 0)) None (Some 5) = true.
Proof.
  simpl. split; [|done].
  intros digest. apply Z.mod_pos_bound. by compute.
Qed.

(** ** The broker: signers *)

Lemma foldl_approve b l :
  foldl approve b l
  = {| deposits := deposits b;
       penaltyEscrows := penaltyEscrows b;
       usedTickets := usedTickets b;
       approvedSigners :=
         foldl (fun m signer => <[signer := true]> m) (approvedSigners b) l;
       redeemShouldFail := redeemShouldFail b;
       getDepositShouldFail := getDepositShouldFail b;
       getPenaltyEscrowShouldFail := getPenaltyEscrowShouldFail b |}.
Proof.
  revert b. induction l as [|signer l IH]; intros b; simpl.
  - by destruct b.
  - by rewrite IH.
Qed.

Lemma lookup_foldl_insert_true (l : list Address) :
  forall (m : gmap Address bool) (signer : Address),
    foldl (fun m s => <[s := true]> m) m l !! signer
    = if decide (signer ∈ l) then Some true else m !! signer.
Proof.
  induction l as [|s l IH]; intros m signer; cbn [foldl].
  - destruct (decide (signer ∈ [])) as [Hin | _]; [|done].
    by apply not_elem_of_nil in Hin.
  - rewrite IH.
    destruct (decide (signer ∈ l)) as [Hin | Hnin],
             (decide (signer ∈ s :: l)) as [Hin' | Hnin']; try done.
    + exfalso. apply Hnin'. by right.
    + apply elem_of_cons in Hin' as [-> | Hin']; [|done].
      by rewrite lookup_insert_eq.
    + rewrite lookup_insert_ne; [done|].
      intros ->. apply Hnin'. by left.
Qed.

Lemma approvedSigners_ApproveSigners b signers signer :
  index false (approvedSigners (ApproveSigners b signers).1) signer
  = bool_decide (signer ∈ elems signers)
    || index false (approvedSigners b) signer.
Proof.
  unfold ApproveSigners, index. simpl.
  rewrite foldl_approve. simpl. rewrite lookup_foldl_insert_true.
  case_bool_decide as Hin.
  - by rewrite decide_True.
  - by rewrite decide_False.
Qed.

(** X1. [ApproveSigners] returns a nil error and approves every signer of
    the slice: afterwards [IsApprovedSigner] answers true, for any sender,
    on the signers of the slice, and on any other signer what it answered
    before. *)
Theorem IsApprovedSigner_after_ApproveSigners b signers sender signer :
  (ApproveSigners b signers).2 = None
  /\ IsApprovedSigner (ApproveSigners b signers).1 sender signer
     = (bool_decide (signer ∈ elems signers)
        || (IsApprovedSigner b sender signer).1, None).
Proof.
  split; [done|]. unfold IsApprovedSigner.
  by rewrite approvedSigners_ApproveSigners.
Qed.

(** X2. [ApproveSigners] depends on which signers the slice holds, not on
    their order nor on repetitions: two slices with the same elements lead
    to the same broker. *)
Theorem ApproveSigners_same_signers b signers1 signers2 :
  (forall signer, signer ∈ elems signers1 <-> signer ∈ elems signers2) ->
  ApproveSigners b signers1 = ApproveSigners b signers2.
Proof.
  intros Hsame. unfold ApproveSigners. rewrite !foldl_approve.
  do 2 f_equal. apply map_eq. intros signer.
  rewrite !lookup_foldl_insert_true.
  destruct (decide (signer ∈ elems signers1)) as [Hin | Hnin].
  - rewrite decide_True; [done | by apply Hsame].
  - rewrite decide_False; [done | by rewrite <- Hsame].
Qed.

Lemma ApproveSigners_same_signers_witness :
  ApproveSigners newStubBroker (Some [31; 32; 31])
  = ApproveSigners newStubBroker (Some [32; 31]).
Proof.
  apply (ApproveSigners_same_signers newStubBroker
           (Some [31; 32; 31]) (Some [32; 31])).
  intros signer. simpl. rewrite !elem_of_cons, !elem_of_nil. tauto.
Defined.

(** ** The broker: histories *)

Section brokerHistories.
Context `{hasher : TicketHasher}.
Implicit Types (b : stubBroker) (c : brokerCall) (cs : list brokerCall).

(** Splits a goal about one call into the cases of the call, with the
    broker and the error that the call returned substituted. *)
Ltac step_cases c Hstep :=
  destruct c; simpl in Hstep;
  try (unfold RedeemWinningTicket in Hstep;
       destruct (redeemShouldFail _) eqn:?;
       [ | destruct (Hash _) as [?h|] eqn:?; [ | discriminate Hstep ] ]);
  injection Hstep as <- <-.

Ltac unfold_approve :=
  unfold ApproveSigners; rewrite ?foldl_approve; simpl.

Lemma brokerRun_cons_inv b c cs b' log :
  brokerRun b (c :: cs) = Returns (b', log) ->
  exists b1 err log',
    brokerStep b c = Returns (b1, err)
    /\ brokerRun b1 cs = Returns (b', log')
    /\ log = (c, err) :: log'.
Proof.
  simpl. destruct (brokerStep b c) as [[b1 err]|]; [|done].
  destruct (brokerRun b1 cs) as [[b2 log']|] eqn:Hrun; [|done].
  intros [= <- <-]. exists b1, err, log'. auto.
Qed.

Lemma brokerStep_balances b c b1 err addr :
  brokerStep b c = Returns (b1, err) ->
  index None (deposits b1) addr
    = depositAfter addr [c] (index None (deposits b) addr)
  /\ index None (penaltyEscrows b1) addr
    = penaltyEscrowAfter addr [c] (index None (penaltyEscrows b) addr)
  /\ getDepositShouldFail b1
    = match c with
      | SetGetDepositShouldFail flag => flag
      | _ => getDepositShouldFail b
      end.
Proof.
  intros Hstep. step_cases c Hstep; unfold_approve; try done.
  - destruct (decide (addr0 = addr)) as [-> | Hne];
      autorewrite with gomap; done.
  - destruct (decide (addr0 = addr)) as [-> | Hne];
      autorewrite with gomap; done.
Qed.

Lemma brokerRun_balances cs : forall b b' log addr,
  brokerRun b cs = Returns (b', log) ->
  index None (deposits b') addr
    = depositAfter addr cs (index None (deposits b) addr)
  /\ index None (penaltyEscrows b') addr
    = penaltyEscrowAfter addr cs (index None (penaltyEscrows b) addr).
Proof.
  induction cs as [|c cs IH]; intros b b' log addr.
  - by intros [= <- <-].
  - intros (b1 & err & log' & Hstep & Hrun & _)%brokerRun_cons_inv.
    destruct (brokerStep_balances _ _ _ _ addr Hstep) as (Hd & Hp & _).
    destruct (IH _ _ _ addr Hrun) as (-> & ->).
    by rewrite Hd, Hp.
Qed.

Lemma brokerStep_used b c b1 err h :
  brokerStep b c = Returns (b1, err) ->
  index false (usedTickets b1) h = true
  <-> index false (usedTickets b) h = true \/ redeemed h (c, err).
Proof.
  intros Hstep. unfold redeemed.
  step_cases c Hstep; unfold_approve;
    try (split; [by left | intros [Hb | (? & ? & ? & [=] & _)]; done]).
  destruct (decide (h0 = h)) as [-> | Hne]; autorewrite with gomap.
  - split; [|done]. intros _. right. eauto.
  - split; [by left|].
    intros [Hb | (? & ? & ? & [= <- _ _] & Hh)]; [done|]. congruence.
Qed.

Lemma brokerStep_approved b c b1 err signer :
  brokerStep b c = Returns (b1, err) ->
  index false (approvedSigners b1) signer = true
  <-> index false (approvedSigners b) signer = true
      \/ approved signer (c, err).
Proof.
  intros Hstep. unfold approved.
  step_cases c Hstep; simpl;
    try (split; [by left | intros [Hb | (? & [=] & _)]; done]).
  pose proof (approvedSigners_ApproveSigners b signers signer) as Happ.
  simpl in Happ. rewrite Happ, orb_true_iff, bool_decide_eq_true.
  split.
  - intros [Hin | Hb]; [right; eauto | by left].
  - intros [Hb | (? & [= <-] & Hin)]; [by right | by left].
Qed.
End brokerHistories.

(** X3. Over any history of broker calls that returns, the balance of an
    address is the amount of the last [SetDeposit] (respectively
    [SetPenaltyEscrow]) on that address, and the balance before the history
    when there is none: funding, approving, redeeming, unlocking and
    withdrawing change no balance. [GetDeposit] and [GetPenaltyEscrow]
    return that amount with a nil error, or a nil amount with an error
    when their failure flag is set. *)
Theorem balances_after_history `{hasher : TicketHasher} b cs b' log addr :
  brokerRun b cs = Returns (b', log) ->
  GetDeposit b' addr
    = (if getDepositShouldFail b'
       then (None, Some "stub broker get deposit error"%string)
       else (depositAfter addr cs (index None (deposits b) addr), None))
  /\ GetPenaltyEscrow b' addr
    = (if getPenaltyEscrowShouldFail b'
       then (None, Some "stub broker get penalty escrow error"%string)
       else (penaltyEscrowAfter addr cs
               (index None (penaltyEscrows b) addr), None)).
Proof.
  intros Hrun. destruct (brokerRun_balances _ _ _ _ addr Hrun) as (Hd & Hp).
  unfold GetDeposit, GetPenaltyEscrow. by rewrite Hd, Hp.
Qed.

Lemma balances_after_history_witness :
  exists b' log,
    brokerRun (hasher := sampleHasher) newStubBroker sampleBrokerCalls
      = Returns (b', log)
    /\ GetDeposit b' 10 = (Some 1000, None)
    /\ GetPenaltyEscrow b' 10 = (None, None).
Proof.
  eexists _, _. split; [reflexivity|].
  exact (balances_after_history (hasher := sampleHasher)
           newStubBroker sampleBrokerCalls _ _ 10 eq_refl).
Defined.

(** X4. Over any history of broker calls that returns, a ticket is
    reported used at the end exactly when it was used at the start or the
    history holds a [RedeemWinningTicket] that returned a nil error on a
    ticket of the same hash: no call takes a ticket out of the used
    tickets, and no other call puts one in. *)
Theorem used_after_history `{hasher : TicketHasher} cs :
  forall b b' log ticket h,
    brokerRun b cs = Returns (b', log) ->
    Hash ticket = Returns h ->
    IsUsedTicket b' ticket = Returns (true, None)
    <-> IsUsedTicket b ticket = Returns (true, None)
        \/ Exists (redeemed h) log.
Proof.
  assert (Hmap : forall b b' log h,
             brokerRun b cs = Returns (b', log) ->
             index false (usedTickets b') h = true
             <-> index false (usedTickets b) h = true
                 \/ Exists (redeemed h) log).
  { induction cs as [|c cs IH]; intros b b' log h.
    - intros [= <- <-]. rewrite Exists_nil. tauto.
    - intros (b1 & err & log' & Hstep & Hrun & ->)%brokerRun_cons_inv.
      rewrite (IH _ _ _ h Hrun), (brokerStep_used _ _ _ _ h Hstep),
        Exists_cons.
      tauto. }
  intros b b' log ticket h Hrun Hh. unfold IsUsedTicket. rewrite Hh.
  assert (Hret : forall x : bool,
             Returns (x, None : error) = Returns (true, None) <-> x = true)
    by (intros x; split; [by intros [= ->] | by intros ->]).
  rewrite !Hret. by apply Hmap.
Qed.

Lemma used_after_history_witness :
  exists b' log,
    brokerRun (hasher := sampleHasher) newStubBroker sampleBrokerCalls
      = Returns (b', log)
    /\ (IsUsedTicket (hasher := sampleHasher) b' (Some (sampleTicket 2 0 0))
          = Returns (true, None)
        <-> IsUsedTicket (hasher := sampleHasher) newStubBroker
              (Some (sampleTicket 2 0 0)) = Returns (true, None)
            \/ Exists (redeemed (hasher := sampleHasher) (10 * 2 ^ 64 + 2))
                 log).
Proof.
  eexists _, _. split; [reflexivity|].
  apply (used_after_history (hasher := sampleHasher) sampleBrokerCalls
           newStubBroker _ _ (Some (sampleTicket 2 0 0))); reflexivity.
Defined.

(** X5. Over any history of broker calls that returns, a signer is
    approved at the end exactly when it was approved at the start or the
    history holds an [ApproveSigners] whose slice holds it. Neither
    [FundAndApproveSigners] approves a signer nor
    [RequestSignersRevocation] revokes one. *)
Theorem approved_after_history `{hasher : TicketHasher} cs :
  forall b b' log sender signer,
    brokerRun b cs = Returns (b', log) ->
    IsApprovedSigner b' sender signer = (true, None)
    <-> IsApprovedSigner b sender signer = (true, None)
        \/ Exists (approved signer) log.
Proof.
  induction cs as [|c cs IH]; intros b b' log sender signer.
  - intros [= <- <-]. rewrite Exists_nil. tauto.
  - intros (b1 & err & log' & Hstep & Hrun & ->)%brokerRun_cons_inv.
    rewrite (IH _ _ _ sender signer Hrun), Exists_cons.
    pose proof (brokerStep_approved _ _ _ _ signer Hstep) as Hs.
    unfold IsApprovedSigner in *.
    assert (Hpair : forall x : bool, (x, None : error) = (true, None) <-> x = true)
      by (intros x; split; [by intros [= ->] | by intros ->]).
    rewrite !Hpair in *. tauto.
Qed.

Lemma approved_after_history_witness :
  exists b' log,
    brokerRun (hasher := sampleHasher) newStubBroker sampleBrokerCalls
      = Returns (b', log)
    /\ (IsApprovedSigner b' 10 30 = (true, None)
        <-> IsApprovedSigner newStubBroker 10 30 = (true, None)
            \/ Exists (approved 30) log).
Proof.
  eexists _, _. split; [reflexivity|].
  apply (approved_after_history (hasher := sampleHasher) sampleBrokerCalls
           newStubBroker _ _ 10 30); reflexivity.
Defined.

Lemma Redeem_twice_witness :
  RedeemWinningTicket (hasher := sampleHasher)
    {| deposits := ∅; penaltyEscrows := ∅;
       usedTickets := {[ 10 * 2 ^ 64 + 1 := true ]}; approvedSigners := ∅;
       redeemShouldFail := false; getDepositShouldFail := false;
       getPenaltyEscrowShouldFail := false |}
    (Some (sampleTicket 1 0 0)) (Some [Byte.x01]) (Some 11)
  = Returns
      ({| deposits := ∅; penaltyEscrows := ∅;
          usedTickets := {[ 10 * 2 ^ 64 + 1 := true ]}; approvedSigners := ∅;
          redeemShouldFail := false; getDepositShouldFail := false;
          getPenaltyEscrowShouldFail := false |}, None).
Proof.
  apply (Redeem_twice (hasher := sampleHasher) newStubBroker).
  reflexivity.
Defined.

(** ** The ticket store: what is stored stays *)

(** X7. From any store and over any sequence of calls, what a session
    holds at the start is a prefix of what it holds at the end, in the
    three lists alike: no call removes, rewrites or reorders a stored
    ticket, signature or recipientRand. *)
Theorem stored_entries_stay ts cs sid :
  let ts' := (run ts cs).1 in
  elems (index None (tickets ts) sid)
    `prefix_of` elems (index None (tickets ts') sid)
  /\ elems (index None (sigs ts) sid)
    `prefix_of` elems (index None (sigs ts') sid)
  /\ elems (index None (recipientRands ts) sid)
    `prefix_of` elems (index None (recipientRands ts') sid).
Proof.
  destruct (run ts cs) as [ts' log] eqn:Hrun. simpl.
  destruct (run_grownBy _ _ _ _ sid Hrun) as (-> & -> & ->).
  rewrite !elems_appendAll. repeat split; by apply prefix_app_r.
Qed.

(** X8. After any sequence of calls replayed from the store built by
    [newStubTicketStore], the ticket, the signature and the recipientRand
    that a session holds at one index are those of one [Store] call: the
    call that was the ([i]+1)-th to store into the session. Past the last
    stored triple the three lists end together. *)
Theorem triples_stay_together cs sid i :
  tripleAt (run newStubTicketStore cs).1 sid i
  = match stored sid (run newStubTicketStore cs).2 !! i with
    | Some (ticket, sig, recipientRand) =>
        (Some ticket, Some sig, Some recipientRand)
    | None => (None, None, None)
    end.
Proof.
  destruct (run newStubTicketStore cs) as [ts' log] eqn:Hrun. simpl.
  destruct (run_new_stored _ _ _ sid Hrun) as (Ht & Hs & Hr).
  unfold tripleAt. rewrite Ht, Hs, Hr, !elems_appendAll. simpl.
  unfold ticketsOf, sigsOf, randsOf.
  change map with (@fmap list _). rewrite !list_lookup_fmap.
  by destruct (stored sid log !! i) as [[[ticket sig] recipientRand]|].
Qed.

(** ** The validator: setters *)

Lemma validatorRun_snoc v cs c :
  validatorRun v (cs ++ [c]) = validatorStep (validatorRun v cs) c.
Proof. unfold validatorRun. by rewrite foldl_app. Qed.

(** X9. After any sequence of calls of the two setters, [ValidateTicket]
    returns a nil error exactly when the last [SetIsValidTicket] set true
    (the flag of the start when there was no such call), and
    [IsWinningTicket] returns what the last [SetIsWinningTicket] set: each
    setter decides one method and leaves the other alone. *)
Theorem validator_follows_last_settings v cs ticket sig recipientRand :
  (ValidateTicket (validatorRun v cs) ticket sig recipientRand = None
   <-> default (isValidTicket v) (last (validSettings cs)) = true)
  /\ IsWinningTicket (validatorRun v cs) ticket sig recipientRand
     = default (isWinningTicket v) (last (winningSettings cs)).
Proof.
  assert (Hflags :
    isValidTicket (validatorRun v cs)
      = default (isValidTicket v) (last (validSettings cs))
    /\ isWinningTicket (validatorRun v cs)
      = default (isWinningTicket v) (last (winningSettings cs))).
  { induction cs as [|c cs [IHv IHw]] using rev_ind; [done|].
    rewrite validatorRun_snoc. unfold validSettings, winningSettings.
    rewrite !omap_app. destruct c as [x | w]; simpl.
    - rewrite last_snoc, app_nil_r. done.
    - rewrite last_snoc, app_nil_r. done. }
  destruct Hflags as [Hv Hw]. unfold ValidateTicket, IsWinningTicket.
  rewrite Hv, Hw. split; [|done].
  destruct (default (isValidTicket v) (last (validSettings cs))); done.
Qed.

(** ** The account manager *)

Section accountManager.
Import AccountManager.
Context {Account : Type}.
Implicit Types (am : stubAccountManager Account) (msg : slice Byte.byte).

Lemma Sign_eq am msg :
  Sign am msg
  = ({| account := account am;
        saveSignRequest := saveSignRequest am;
        lastSignRequest :=
          if saveSignRequest am then msg else lastSignRequest am;
        signResponse := signResponse am;
        signShouldFail := signShouldFail am |},
     signResult am).
Proof.
  unfold Sign, signResult.
  destruct am as [acc save lastReq resp fail], save, fail; reflexivity.
Qed.

(** X10. Signing a sequence of messages: every [Sign] returns the same
    result, the configured response with a nil error, or a nil signature
    with an error when [signShouldFail] is set, whatever the message is.
    With [saveSignRequest] set the manager holds the last message at the
    end, also when the calls failed; with it unset the saved request is
    the one of the start. The account and the configuration are as at the
    start. *)
Theorem Sign_history msgs : forall am,
  (signAll am msgs).2 = replicate (length msgs) (signResult am)
  /\ lastSignRequest (signAll am msgs).1
     = (if saveSignRequest am
        then default (lastSignRequest am) (last msgs)
        else lastSignRequest am)
  /\ AccountManager.Account (signAll am msgs).1 = AccountManager.Account am
  /\ saveSignRequest (signAll am msgs).1 = saveSignRequest am
  /\ signResponse (signAll am msgs).1 = signResponse am
  /\ signShouldFail (signAll am msgs).1 = signShouldFail am.
Proof.
  induction msgs as [|msg msgs IH]; intros am.
  - simpl. by destruct (saveSignRequest am).
  - cbn [signAll]. rewrite Sign_eq.
    match goal with |- context [signAll ?a msgs] => set (am1 := a) end.
    destruct (IH am1) as (Hres & Hlast & Hacc & Hsave & Hresp & Hfail).
    destruct (signAll am1 msgs) as [am2 ress]. simpl in *.
    rewrite Hres, Hlast, Hacc, Hsave, Hresp, Hfail. unfold am1. simpl.
    repeat split.
    rewrite last_cons.
    destruct (saveSignRequest am), (last msgs); done.
Qed.
End accountManager.

(** ** The broker: tickets that cannot be hashed *)

(** X11. On a ticket whose [Hash] panics (the nil pointer, for a hasher
    that reads the fields), [RedeemWinningTicket] returns its error
    without a panic when [redeemShouldFail] is set, for the flag is tested
    before the ticket is hashed, and panics otherwise; [IsUsedTicket]
    panics in both cases. *)
Theorem Redeem_unhashable_ticket `{hasher : TicketHasher}
    b ticket sig recipientRand :
  Hash ticket = Panics ->
  RedeemWinningTicket b ticket sig recipientRand
    = (if redeemShouldFail b
       then Returns (b, Some "stub broker redeem error"%string)
       else Panics)
  /\ IsUsedTicket b ticket = Panics.
Proof.
  intros Hpanic. unfold RedeemWinningTicket, IsUsedTicket.
  rewrite Hpanic. by destruct (redeemShouldFail b).
Qed.

Lemma Redeem_unhashable_ticket_witness :
  RedeemWinningTicket (hasher := sampleHasher)
    (setRedeemShouldFail newStubBroker true) None None None
    = Returns (setRedeemShouldFail newStubBroker true,
               Some "stub broker redeem error"%string)
  /\ IsUsedTicket (hasher := sampleHasher)
       (setRedeemShouldFail newStubBroker true) None = Panics.
Proof.
  apply (Redeem_unhashable_ticket (hasher := sampleHasher)
           (setRedeemShouldFail newStubBroker true) None None None).
  reflexivity.
Defined.
